(** * TodoApp: the todo-list controller of [src/app/page.tsx] and of its
    memoized variant [src/app/optimized/page.tsx]

    Both pages keep an array of [Todo] records in React state and change it
    only through six callbacks.  Each callback computes the next array from
    the current one ([map], [filter], spread-and-append) and hands it to
    [setTodos]; the development embeds each callback as the function from
    the current array to the next one.

    - every user action is handled after the render that followed the
      previous one, so the [todos] a callback closes over is the current
      state; the callbacks written with an updater, [setTodos(prev => ...)],
      are the same functions of the current array;
    - a JS string is the list of its UTF-16 code units;
    - [id : number] only ever holds a value of [Date.now()], an integer
      number of milliseconds, so it is a [Z] and [===] is equality on [Z];
    - [Date.now()] is read from the environment: the reading is an explicit
      argument [now] of the operations that consult the clock. *)

From Stdlib Require Import ZArith NArith String Ascii.
From stdpp Require Import base decidable numbers list sorting.

Local Open Scope Z_scope.

(** ** JavaScript strings and [String.prototype.trim] *)

Module JS.

(** A string value: a finite sequence of 16-bit code units. *)
Definition string := list N.

(** ECMAScript WhiteSpace and LineTerminator code points, the ones
    [trim] strips.  All of them lie in the Basic Multilingual Plane, so
    each is a single code unit. *)
Definition isWhiteSpace (c : N) : bool :=
  ((c =? 0x0009) || (c =? 0x000A) || (c =? 0x000B) || (c =? 0x000C)
   || (c =? 0x000D) || (c =? 0x0020) || (c =? 0x00A0) || (c =? 0x1680)
   || ((0x2000 <=? c) && (c <=? 0x200A))
   || (c =? 0x2028) || (c =? 0x2029) || (c =? 0x202F) || (c =? 0x205F)
   || (c =? 0x3000) || (c =? 0xFEFF))%N.

Fixpoint trimStart (s : string) : string :=
  match s with
  | c :: s' => if isWhiteSpace c then trimStart s' else s
  | [] => []
  end.

Definition trimEnd (s : string) : string := rev (trimStart (rev s)).

Definition trim (s : string) : string := trimEnd (trimStart s).

(** Code units of an ASCII literal, for writing examples. *)
Definition lit (s : String.string) : string :=
  map N_of_ascii (list_ascii_of_string s).

End JS.

(** ** The data model: [interface Todo] *)

Module Todo.

Record t : Type := mk {
  id : Z;
  text : JS.string;
  completed : bool;
  isEditing : bool
}.

#[global] Instance eq_dec : EqDecision t.
Proof. solve_decision. Defined.

End Todo.

(** ** Controller operations, as the user interface issues them

    [AddTodo now text]: the input field holds [text] when "Add" is clicked
    and the clock reads [now].  The other five are the callbacks handed to
    each list item, with the arguments of the call. *)

Inductive Op : Type :=
  | AddTodo (now : Z) (text : JS.string)
  | ToggleTodo (id : Z)
  | UpdateTodoText (id : Z) (newText : JS.string)
  | StartEditing (id : Z)
  | SaveTodoEdit (id : Z)
  | RemoveTodo (id : Z).

(** ** What a list item renders

    The [<li>] of one [Todo], identical in both pages (in the memoized page
    it is the body of [TodoItem]): the elements in document order, each
    event handler recorded as the controller call it makes. *)

Inductive Icon : Type := Check | Pencil | Trash2.

Inductive Element : Type :=
  | Checkbox (checked : bool) (onCheckedChange : Op)
  | Input (value : JS.string) (onChange : JS.string → Op)
  | Span (lineThrough : bool) (children : JS.string)
  | Button (icon : Icon) (onClick : Op).

Definition TodoItem (todo : Todo.t) : list Element :=
  [ Checkbox (Todo.completed todo) (ToggleTodo (Todo.id todo));
    if Todo.isEditing todo
    then Input (Todo.text todo) (λ value, UpdateTodoText (Todo.id todo) value)
    else Span (Todo.completed todo) (Todo.text todo);
    if Todo.isEditing todo
    then Button Check (SaveTodoEdit (Todo.id todo))
    else Button Pencil (StartEditing (Todo.id todo));
    Button Trash2 (RemoveTodo (Todo.id todo)) ].

(** ** What a page renders

    The tree under the heading, in document order: the text field bound to
    [newTodo], the "Add" button, and one [<li key={todo.id}>] per Todo with
    the elements of [TodoItem] as children.  Styling is left out. *)

Inductive PageElement : Type :=
  | Field (value : JS.string)
  | AddButton
  | Li (key : Z) (children : list Element).

(** ** The basic page, [src/app/page.tsx] *)

Module Basic.

(** The two [useState] cells of [TodoList]. *)
Record State : Type := mkState {
  todos : list Todo.t;
  newTodo : JS.string
}.

(** Initial values of both cells. *)
Definition init : State := {| todos := []; newTodo := [] |}.

(** [onChange={(e) => setNewTodo(e.target.value)}] *)
Definition setNewTodo (value : JS.string) (st : State) : State :=
  {| todos := todos st; newTodo := value |}.

Definition addTodo (now : Z) (st : State) : State :=
  if decide (JS.trim (newTodo st) ≠ []) then
    {| todos := todos st ++ [Todo.mk now (newTodo st) false false];
       newTodo := [] |}
  else st.

Definition toggleTodo (id : Z) (todos : list Todo.t) : list Todo.t :=
  (λ todo,
     if decide (Todo.id todo = id)
     then Todo.mk (Todo.id todo) (Todo.text todo)
                  (negb (Todo.completed todo)) (Todo.isEditing todo)
     else todo) <$> todos.

Definition removeTodo (id : Z) (todos : list Todo.t) : list Todo.t :=
  filter (λ todo, Todo.id todo ≠ id) todos.

Definition startEditing (id : Z) (todos : list Todo.t) : list Todo.t :=
  (λ todo,
     if decide (Todo.id todo = id)
     then Todo.mk (Todo.id todo) (Todo.text todo)
                  (Todo.completed todo) true
     else todo) <$> todos.

Definition updateTodoText (id : Z) (newText : JS.string)
    (todos : list Todo.t) : list Todo.t :=
  (λ todo,
     if decide (Todo.id todo = id)
     then Todo.mk (Todo.id todo) newText
                  (Todo.completed todo) (Todo.isEditing todo)
     else todo) <$> todos.

Definition saveTodoEdit (id : Z) (todos : list Todo.t) : list Todo.t :=
  (λ todo,
     if decide (Todo.id todo = id)
     then Todo.mk (Todo.id todo) (Todo.text todo)
                  (Todo.completed todo) false
     else todo) <$> todos.

(** [setTodos(f(todos))] for the callbacks that leave [newTodo] alone. *)
Definition setTodos (f : list Todo.t → list Todo.t) (st : State) : State :=
  {| todos := f (todos st); newTodo := newTodo st |}.

(** One user action.  Adding is typing [text] into the field
    ([setNewTodo]) and clicking "Add". *)
Definition step (st : State) (op : Op) : State :=
  match op with
  | AddTodo now text => addTodo now (setNewTodo text st)
  | ToggleTodo id => setTodos (toggleTodo id) st
  | UpdateTodoText id newText => setTodos (updateTodoText id newText) st
  | StartEditing id => setTodos (startEditing id) st
  | SaveTodoEdit id => setTodos (saveTodoEdit id) st
  | RemoveTodo id => setTodos (removeTodo id) st
  end.

Definition run (ops : list Op) (st : State) : State := foldl step st ops.

(** The JSX returned by [TodoList]. *)
Definition render (st : State) : list PageElement :=
  [Field (newTodo st); AddButton]
  ++ ((λ todo, Li (Todo.id todo) (TodoItem todo)) <$> todos st).

End Basic.

(** ** The memoized page, [src/app/optimized/page.tsx] *)

Module Optimized.

(** [todos] is the [useState] cell of [TodoList]; [newTodo] is the cell
    that moved into [TodoInput].  [startEditing], [updateTodoText] and
    [saveTodoEdit] are not wrapped in [useCallback]: they are new
    functions at every render, so the memoized [TodoItem] always holds
    the ones that close over the current [todos]. *)
Record State : Type := mkState {
  todos : list Todo.t;
  newTodo : JS.string
}.

Definition init : State := {| todos := []; newTodo := [] |}.

(** [TodoInput.handleChange] *)
Definition handleChange (value : JS.string) (st : State) : State :=
  {| todos := todos st; newTodo := value |}.

(** [TodoList.addTodo]: the updater [(prev) => [...prev, {...}]]. *)
Definition addTodo (now : Z) (text : JS.string)
    (prev : list Todo.t) : list Todo.t :=
  prev ++ [Todo.mk now text false false].

(** [TodoInput.handleAdd], with the [onAdd] prop as the state change it
    causes in the parent. *)
Definition handleAdd (onAdd : JS.string → list Todo.t → list Todo.t)
    (st : State) : State :=
  if decide (JS.trim (newTodo st) ≠ []) then
    {| todos := onAdd (JS.trim (newTodo st)) (todos st); newTodo := [] |}
  else st.

Definition toggleTodo (id : Z) (prev : list Todo.t) : list Todo.t :=
  (λ todo,
     if decide (Todo.id todo = id)
     then Todo.mk (Todo.id todo) (Todo.text todo)
                  (negb (Todo.completed todo)) (Todo.isEditing todo)
     else todo) <$> prev.

Definition removeTodo (id : Z) (prev : list Todo.t) : list Todo.t :=
  filter (λ todo, Todo.id todo ≠ id) prev.

Definition startEditing (id : Z) (todos : list Todo.t) : list Todo.t :=
  (λ todo,
     if decide (Todo.id todo = id)
     then Todo.mk (Todo.id todo) (Todo.text todo)
                  (Todo.completed todo) true
     else todo) <$> todos.

Definition updateTodoText (id : Z) (newText : JS.string)
    (todos : list Todo.t) : list Todo.t :=
  (λ todo,
     if decide (Todo.id todo = id)
     then Todo.mk (Todo.id todo) newText
                  (Todo.completed todo) (Todo.isEditing todo)
     else todo) <$> todos.

Definition saveTodoEdit (id : Z) (todos : list Todo.t) : list Todo.t :=
  (λ todo,
     if decide (Todo.id todo = id)
     then Todo.mk (Todo.id todo) (Todo.text todo)
                  (Todo.completed todo) false
     else todo) <$> todos.

Definition setTodos (f : list Todo.t → list Todo.t) (st : State) : State :=
  {| todos := f (todos st); newTodo := newTodo st |}.

(** One user action; [<TodoInput onAdd={addTodo} />]. *)
Definition step (st : State) (op : Op) : State :=
  match op with
  | AddTodo now text => handleAdd (addTodo now) (handleChange text st)
  | ToggleTodo id => setTodos (toggleTodo id) st
  | UpdateTodoText id newText => setTodos (updateTodoText id newText) st
  | StartEditing id => setTodos (startEditing id) st
  | SaveTodoEdit id => setTodos (saveTodoEdit id) st
  | RemoveTodo id => setTodos (removeTodo id) st
  end.

Definition run (ops : list Op) (st : State) : State := foldl step st ops.

(** The JSX returned by [TodoInput]. *)
Definition TodoInput (newTodo : JS.string) : list PageElement :=
  [Field newTodo; AddButton].

(** The JSX returned by [TodoList]. *)
Definition render (st : State) : list PageElement :=
  TodoInput (newTodo st)
  ++ ((λ todo, Li (Todo.id todo) (TodoItem todo)) <$> todos st).

End Optimized.

(** ** Vocabulary of the statements *)

(** The ids of a collection, in collection order. *)
Definition ids (todos : list Todo.t) : list Z := Todo.id <$> todos.

(** How many Todos of a collection carry [id]. *)
Definition occurrences (id : Z) (todos : list Todo.t) : nat :=
  length (filter (λ todo, Todo.id todo = id) todos).

(** Clock readings of the add operations of a trace, in trace order. *)
Definition stamps (ops : list Op) : list Z :=
  omap (λ op, match op with AddTodo now _ => Some now | _ => None end) ops.

(** The clock readings the page takes along a trace, in trace order:
    [Date.now()] is evaluated only by an add whose text is not blank. *)
Definition readings (ops : list Op) : list Z :=
  omap (λ op, match op with
              | AddTodo now text =>
                  if decide (JS.trim text ≠ []) then Some now else None
              | _ => None
              end) ops.

(** The text submitted to add, if any, has no white space at either
    end. *)
Definition trimmed_input (op : Op) : Prop :=
  match op with
  | AddTodo _ text => JS.trim text = text
  | _ => True
  end.

Definition trimmed_inputs (ops : list Op) : Prop := Forall trimmed_input ops.

(** The same operation with the text submitted to add trimmed. *)
Definition trim_input (op : Op) : Op :=
  match op with
  | AddTodo now text => AddTodo now (JS.trim text)
  | _ => op
  end.

Definition trim_inputs (ops : list Op) : list Op := trim_input <$> ops.

(** The shape shared by [toggleTodo], [startEditing], [updateTodoText] and
    [saveTodoEdit]: [todos.map(todo => todo.id === id ? g(todo) : todo)]. *)
Definition per_item (g : Todo.t → Todo.t) (id : Z)
    (todos : list Todo.t) : list Todo.t :=
  (λ todo, if decide (Todo.id todo = id) then g todo else todo) <$> todos.

(** [todos'] is [todos] with, position by position, a Todo that differs
    from the original at most as [changes] allows, and not at all when
    its id is not [id]. *)
Definition frame (changes : Todo.t → Todo.t → Prop) (id : Z)
    (todos todos' : list Todo.t) : Prop :=
  length todos' = length todos ∧
  ∀ i todo, todos !! i = Some todo →
    ∃ todo', todos' !! i = Some todo' ∧ changes todo todo' ∧
             (Todo.id todo ≠ id → todo' = todo).

Definition only_completed (todo todo' : Todo.t) : Prop :=
  Todo.id todo' = Todo.id todo ∧ Todo.text todo' = Todo.text todo ∧
  Todo.isEditing todo' = Todo.isEditing todo.

Definition only_text (todo todo' : Todo.t) : Prop :=
  Todo.id todo' = Todo.id todo ∧ Todo.completed todo' = Todo.completed todo ∧
  Todo.isEditing todo' = Todo.isEditing todo.

Definition only_isEditing (todo todo' : Todo.t) : Prop :=
  Todo.id todo' = Todo.id todo ∧ Todo.text todo' = Todo.text todo ∧
  Todo.completed todo' = Todo.completed todo.

(** What keeping insertion order means for the collection before and
    after one operation.  An add with a text that is not blank puts the
    new Todo, made of the clock reading and of what the page [stored] of
    the text, after all the others, and an add with a blank text changes
    nothing.  A removal leaves a subsequence (the same records, in the
    same relative order) made of exactly the Todos with another id.  Any
    other operation leaves the sequence of ids as it was. *)
Definition order_preserved (stored : JS.string → JS.string) (op : Op)
    (todos todos' : list Todo.t) : Prop :=
  match op with
  | AddTodo now text =>
      (JS.trim text ≠ [] →
       todos' = todos ++ [Todo.mk now (stored text) false false]) ∧
      (JS.trim text = [] → todos' = todos)
  | RemoveTodo id =>
      todos' `sublist_of` todos ∧
      ∀ todo, todo ∈ todos' ↔ todo ∈ todos ∧ Todo.id todo ≠ id
  | _ => ids todos' = ids todos
  end.

(** The id an operation is aimed at; an add is aimed at none. *)
Definition target (op : Op) : option Z :=
  match op with
  | AddTodo _ _ => None
  | ToggleTodo id | UpdateTodoText id _ | StartEditing id
  | SaveTodoEdit id | RemoveTodo id => Some id
  end.

(** [op] is a call that element [e] makes when the user acts on it: a
    checkbox or a button makes the one call of its handler, a text field
    makes its handler's call with whatever value was typed, a span makes
    none. *)
Definition issues (e : Element) (op : Op) : Prop :=
  match e with
  | Checkbox _ onCheckedChange => op = onCheckedChange
  | Input _ onChange => ∃ value, op = onChange value
  | Span _ _ => False
  | Button _ onClick => op = onClick
  end.

(** Two Todos that agree on everything but, possibly, the text. *)
Definition same_but_text (todo todo' : Todo.t) : Prop :=
  Todo.id todo = Todo.id todo' ∧
  Todo.completed todo = Todo.completed todo' ∧
  Todo.isEditing todo = Todo.isEditing todo'.

(** Any operation but [updateTodoText]. *)
Definition no_text_edit (op : Op) : Prop :=
  match op with
  | UpdateTodoText _ _ => False
  | _ => True
  end.

(** ** Sanity checks on concrete inputs *)

Example trim_blank : JS.trim (JS.lit "   ") = [].
Proof. reflexivity. Qed.

Example trim_inner : JS.trim (JS.lit "  Buy milk ") = JS.lit "Buy milk".
Proof. reflexivity. Qed.

Example add_A_add_B_remove_A :
  Todo.text <$> Basic.todos (Basic.run
    [AddTodo 1 (JS.lit "A"); AddTodo 2 (JS.lit "B"); RemoveTodo 1] Basic.init)
  = [JS.lit "B"].
Proof. vm_compute. reflexivity. Qed.


(** ** The per-item callbacks *)

Section PerItem.

Variable id : Z.
Variable g : Todo.t → Todo.t.

Local Abbreviation upd := (per_item g id).

Lemma per_item_absent (todos : list Todo.t) :
  id ∉ ids todos → upd todos = todos.
Proof.
  unfold per_item, ids. induction todos as [|todo todos IH]; intros Hid; [done|].
  rewrite fmap_cons, not_elem_of_cons in Hid. destruct Hid as [Hne Hid].
  rewrite fmap_cons, IH by done. by rewrite decide_False.
Qed.

Lemma per_item_length (todos : list Todo.t) :
  length (upd todos) = length todos.
Proof. apply length_fmap. Qed.

Lemma per_item_hit (todos : list Todo.t) (i : nat) (todo : Todo.t) :
  todos !! i = Some todo → Todo.id todo = id →
  upd todos !! i = Some (g todo).
Proof.
  intros Hi Hid. unfold per_item. rewrite list_lookup_fmap, Hi. simpl.
  by rewrite decide_True.
Qed.

Lemma per_item_miss (todos : list Todo.t) (i : nat) (todo : Todo.t) :
  todos !! i = Some todo → Todo.id todo ≠ id →
  upd todos !! i = Some todo.
Proof.
  intros Hi Hid. unfold per_item. rewrite list_lookup_fmap, Hi. simpl.
  by rewrite decide_False.
Qed.

Lemma per_item_ids (todos : list Todo.t) :
  (∀ todo, Todo.id (g todo) = Todo.id todo) →
  ids (upd todos) = ids todos.
Proof.
  intros Hg. unfold per_item, ids. rewrite <- list_fmap_compose.
  apply list_fmap_ext. intros i todo _. simpl. by case_decide.
Qed.

Lemma per_item_frame (changes : Todo.t → Todo.t → Prop)
    (todos : list Todo.t) :
  (∀ todo, changes todo todo) → (∀ todo, changes todo (g todo)) →
  frame changes id todos (upd todos).
Proof.
  intros Hrefl Hg. split; [apply per_item_length|].
  intros i todo Hi. destruct (decide (Todo.id todo = id)) as [Heq|Hne].
  - exists (g todo). by rewrite (per_item_hit _ _ _ Hi Heq).
  - exists todo. by rewrite (per_item_miss _ _ _ Hi Hne).
Qed.

End PerItem.

(** The memoized page copies the five per-item callbacks unchanged. *)
Lemma Optimized_callbacks_eq :
  Optimized.toggleTodo = Basic.toggleTodo ∧
  Optimized.removeTodo = Basic.removeTodo ∧
  Optimized.startEditing = Basic.startEditing ∧
  Optimized.updateTodoText = Basic.updateTodoText ∧
  Optimized.saveTodoEdit = Basic.saveTodoEdit.
Proof. by repeat split. Qed.

(** ** Adding *)

Lemma addTodo_blank (now : Z) (st : Basic.State) :
  JS.trim (Basic.newTodo st) = [] → Basic.addTodo now st = st.
Proof. intros H. unfold Basic.addTodo. by rewrite decide_False by (by intros ?). Qed.

Lemma addTodo_append (now : Z) (st : Basic.State) :
  JS.trim (Basic.newTodo st) ≠ [] →
  Basic.addTodo now st =
    Basic.mkState
      (Basic.todos st ++ [Todo.mk now (Basic.newTodo st) false false]) [].
Proof. intros H. unfold Basic.addTodo. by rewrite decide_True. Qed.

Lemma handleAdd_blank onAdd (st : Optimized.State) :
  JS.trim (Optimized.newTodo st) = [] → Optimized.handleAdd onAdd st = st.
Proof.
  intros H. unfold Optimized.handleAdd. by rewrite decide_False by (by intros ?).
Qed.

Lemma handleAdd_append (now : Z) (st : Optimized.State) :
  JS.trim (Optimized.newTodo st) ≠ [] →
  Optimized.handleAdd (Optimized.addTodo now) st =
    Optimized.mkState
      (Optimized.todos st
         ++ [Todo.mk now (JS.trim (Optimized.newTodo st)) false false]) [].
Proof. intros H. unfold Optimized.handleAdd. by rewrite decide_True. Qed.

(** C1.  In both pages, adding with an input that is empty once trimmed
    leaves the collection as it was; with any other input it appends exactly
    one Todo, whose [completed] and [isEditing] are both false, so the
    collection grows by exactly one. *)
Theorem addTodo_noop_or_append (now : Z) (todos : list Todo.t)
    (input : JS.string) :
  let basic := Basic.todos (Basic.addTodo now (Basic.mkState todos input)) in
  let optimized :=
    Optimized.todos
      (Optimized.handleAdd (Optimized.addTodo now)
         (Optimized.mkState todos input)) in
  (JS.trim input = [] → basic = todos ∧ optimized = todos) ∧
  (JS.trim input ≠ [] →
     ∃ todo todo',
       basic = todos ++ [todo] ∧ optimized = todos ++ [todo'] ∧
       Todo.completed todo = false ∧ Todo.isEditing todo = false ∧
       Todo.completed todo' = false ∧ Todo.isEditing todo' = false ∧
       length basic = S (length todos) ∧
       length optimized = S (length todos)).
Proof.
  intros basic optimized. subst basic optimized. split; intros H.
  - by rewrite addTodo_blank, handleAdd_blank.
  - rewrite addTodo_append, handleAdd_append by done. simpl.
    eexists _, _. repeat split; rewrite length_app; simpl; lia.
Qed.

Lemma addTodo_noop_or_append_witness :
  Basic.todos (Basic.addTodo 7 (Basic.mkState [] (JS.lit "   "))) = [] ∧
  ∃ todo todo',
    Basic.todos (Basic.addTodo 7 (Basic.mkState [] (JS.lit "Buy milk")))
      = [] ++ [todo] ∧
    Optimized.todos
      (Optimized.handleAdd (Optimized.addTodo 7)
         (Optimized.mkState [] (JS.lit "Buy milk"))) = [] ++ [todo'] ∧
    Todo.completed todo = false ∧ Todo.isEditing todo = false.
Proof.
  split.
  - apply (addTodo_noop_or_append 7 [] (JS.lit "   ")). reflexivity.
  - destruct (proj2 (addTodo_noop_or_append 7 [] (JS.lit "Buy milk")))
      as (todo & todo' & Hb & Ho & Hc & He & _).
    + vm_compute. discriminate.
    + exists todo, todo'. repeat split; assumption.
Defined.

(** ** Toggling *)

(** C5.  [toggleTodo id] negates [completed] on every Todo whose id is
    [id], whatever its position, and two calls in a row give back the
    collection they started from. *)
Theorem toggleTodo_flips_and_involutive (id : Z) (todos : list Todo.t) :
  (∀ i todo, todos !! i = Some todo → Todo.id todo = id →
     Basic.toggleTodo id todos !! i =
       Some (Todo.mk (Todo.id todo) (Todo.text todo)
                     (negb (Todo.completed todo)) (Todo.isEditing todo))) ∧
  Basic.toggleTodo id (Basic.toggleTodo id todos) = todos.
Proof.
  split.
  - intros i todo Hi Hid.
    exact (per_item_hit id _ todos i todo Hi Hid).
  - unfold Basic.toggleTodo. rewrite <- list_fmap_compose.
    rewrite <- (list_fmap_id todos) at 2. apply list_fmap_ext.
    intros i [tid ttext tcompleted tediting] _. simpl.
    destruct (decide (tid = id)) as [Heq|Hne]; simpl.
    + rewrite decide_True by done. by rewrite negb_involutive.
    + by rewrite decide_False.
Qed.

Lemma toggleTodo_flips_and_involutive_witness :
  let todos := [Todo.mk 1 (JS.lit "A") false false;
                Todo.mk 2 (JS.lit "B") true false] in
  Basic.toggleTodo 2 todos !! 1%nat = Some (Todo.mk 2 (JS.lit "B") false false) ∧
  Basic.toggleTodo 2 (Basic.toggleTodo 2 todos) = todos.
Proof.
  intros todos.
  destruct (toggleTodo_flips_and_involutive 2 todos) as [Hflip Hinv].
  split; [|exact Hinv].
  exact (Hflip 1%nat (Todo.mk 2 (JS.lit "B") true false) eq_refl eq_refl).
Defined.

(** ** Editing in place *)

(** Two Todos added within one millisecond share an id.  Put both in
    edit mode, then run pencil and check on the first: the second, another
    Todo, is taken out of edit mode along with it. *)
Lemma startEditing_saveTodoEdit_same_millisecond :
  let todos :=
    Basic.todos
      (Basic.run [AddTodo 5 (JS.lit "A"); AddTodo 5 (JS.lit "B");
                  StartEditing 5] Basic.init) in
  todos !! 0%nat = Some (Todo.mk 5 (JS.lit "A") false true) ∧
  todos !! 1%nat = Some (Todo.mk 5 (JS.lit "B") false true) ∧
  Basic.saveTodoEdit 5 (Basic.startEditing 5 todos) !! 1%nat
    = Some (Todo.mk 5 (JS.lit "B") false false) ∧
  Basic.saveTodoEdit 5 (Basic.startEditing 5 todos) !! 1%nat ≠ todos !! 1%nat.
Proof. vm_compute. repeat split. discriminate. Qed.

(** C6, amended.  [startEditing id] followed at once by [saveTodoEdit id]
    leaves the collection as it was except that every Todo with that id
    ends with [isEditing = false]: its id, text and [completed] are the
    ones it had, and every Todo with another id is the same record at
    the same position.  When the ids of the collection are pairwise
    distinct, the Todo with that id is the only one concerned: every
    other position holds what it held. *)
Theorem startEditing_then_saveTodoEdit (id : Z) (todos : list Todo.t) :
  let todos' := Basic.saveTodoEdit id (Basic.startEditing id todos) in
  length todos' = length todos ∧
  (∀ i todo, todos !! i = Some todo →
     (Todo.id todo = id →
        todos' !! i =
          Some (Todo.mk (Todo.id todo) (Todo.text todo)
                        (Todo.completed todo) false)) ∧
     (Todo.id todo ≠ id → todos' !! i = Some todo)) ∧
  (NoDup (ids todos) →
   ∀ i todo, todos !! i = Some todo → Todo.id todo = id →
     ∀ j, j ≠ i → todos' !! j = todos !! j).
Proof.
  intros todos'. subst todos'.
  assert (∀ i todo, todos !! i = Some todo →
            (Todo.id todo = id →
               Basic.saveTodoEdit id (Basic.startEditing id todos) !! i =
                 Some (Todo.mk (Todo.id todo) (Todo.text todo)
                               (Todo.completed todo) false)) ∧
            (Todo.id todo ≠ id →
               Basic.saveTodoEdit id (Basic.startEditing id todos) !! i
               = Some todo)) as Heach.
  { intros i todo Hi. split; intros Hid.
    - unfold Basic.saveTodoEdit, Basic.startEditing.
      rewrite !list_lookup_fmap, Hi. simpl.
      rewrite (decide_True _ _ Hid). simpl. by rewrite decide_True.
    - unfold Basic.saveTodoEdit, Basic.startEditing.
      rewrite !list_lookup_fmap, Hi. simpl.
      by rewrite !(decide_False _ _ Hid). }
  split; [|split; [exact Heach|]].
  - unfold Basic.saveTodoEdit, Basic.startEditing. by rewrite !length_fmap.
  - intros Hnd i todo Hi Hid j Hji.
    destruct (todos !! j) as [other|] eqn:Hj.
    + apply (Heach j other Hj). intros Hother. apply Hji.
      apply (NoDup_lookup (ids todos) j i id Hnd); unfold ids;
        rewrite list_lookup_fmap;
        [rewrite Hj|rewrite Hi]; simpl; by f_equal.
    + unfold Basic.saveTodoEdit, Basic.startEditing.
      by rewrite !list_lookup_fmap, Hj.
Qed.

Lemma startEditing_then_saveTodoEdit_witness :
  let todos := [Todo.mk 1 (JS.lit "A") false false;
                Todo.mk 2 (JS.lit "B") true true] in
  Basic.saveTodoEdit 1 (Basic.startEditing 1 todos) !! 0%nat
    = Some (Todo.mk 1 (JS.lit "A") false false) ∧
  Basic.saveTodoEdit 1 (Basic.startEditing 1 todos) !! 1%nat
    = Some (Todo.mk 2 (JS.lit "B") true true) ∧
  Basic.saveTodoEdit 1 (Basic.startEditing 1 todos) !! 1%nat
    = todos !! 1%nat.
Proof.
  intros todos.
  destruct (startEditing_then_saveTodoEdit 1 todos) as (_ & Heach & Honly).
  split; [|split].
  - exact (proj1 (Heach 0%nat _ eq_refl) eq_refl).
  - apply (proj2 (Heach 1%nat _ eq_refl)). discriminate.
  - apply (Honly ltac:(apply (bool_decide_unpack _); vm_compute; exact I)
             0%nat _ eq_refl eq_refl). discriminate.
Defined.

(** ** Removing *)

Lemma removeTodo_absent (id : Z) (todos : list Todo.t) :
  id ∉ ids todos → Basic.removeTodo id todos = todos.
Proof.
  unfold Basic.removeTodo, ids.
  induction todos as [|todo todos IH]; intros Hid; [done|].
  rewrite fmap_cons, not_elem_of_cons in Hid. destruct Hid as [Hne Hid].
  rewrite filter_cons_True by done. by rewrite IH.
Qed.

Lemma removeTodo_gone (id : Z) (todos : list Todo.t) :
  id ∉ ids (Basic.removeTodo id todos).
Proof.
  unfold ids, Basic.removeTodo. intros Hin.
  apply list_elem_of_fmap in Hin as (todo & -> & Hin).
  apply list_elem_of_filter in Hin as [Hne _]. by apply Hne.
Qed.

Lemma removeTodo_length (id : Z) (todos : list Todo.t) :
  (length (Basic.removeTodo id todos) + occurrences id todos)%nat
  = length todos.
Proof.
  unfold Basic.removeTodo, occurrences.
  induction todos as [|todo todos IH]; [done|].
  destruct (decide (Todo.id todo = id)) as [Heq|Hne].
  - rewrite filter_cons_False by (by intros H; apply H).
    rewrite (filter_cons_True (λ todo, Todo.id todo = id)) by done.
    simpl. lia.
  - rewrite filter_cons_True by done.
    rewrite (filter_cons_False (λ todo, Todo.id todo = id)) by done.
    simpl. lia.
Qed.

Lemma occurrences_absent (id : Z) (todos : list Todo.t) :
  id ∉ ids todos → occurrences id todos = 0%nat.
Proof.
  intros Hid. pose proof (removeTodo_length id todos) as Hlen.
  rewrite removeTodo_absent in Hlen by done. lia.
Qed.

Lemma occurrences_unique (id : Z) (todos : list Todo.t) :
  NoDup (ids todos) → id ∈ ids todos → occurrences id todos = 1%nat.
Proof.
  unfold ids. induction todos as [|todo todos IH]; intros Hnd Hin.
  - by apply elem_of_nil in Hin.
  - rewrite fmap_cons in Hnd, Hin. apply NoDup_cons in Hnd as [Hfresh Hnd].
    unfold occurrences in *.
    destruct (decide (Todo.id todo = id)) as [Heq|Hne].
    + rewrite filter_cons_True by done. simpl. f_equal.
      apply occurrences_absent. unfold ids. by rewrite <- Heq.
    + rewrite filter_cons_False by done. apply IH; [done|].
      apply elem_of_cons in Hin as [Heq|Hin]; [by subst|done].
Qed.

(** ** No-ops on invalid input *)

Lemma setTodos_same (f : list Todo.t → list Todo.t) (st : Basic.State) :
  f (Basic.todos st) = Basic.todos st → Basic.setTodos f st = st.
Proof. destruct st as [todos newTodo]. unfold Basic.setTodos. simpl. by intros ->. Qed.

(** C8.  Every operation is a function from state to state, so it always
    returns and has no failure outcome.  With an id that no Todo carries,
    [toggleTodo], [updateTodoText], [startEditing], [saveTodoEdit] and
    [removeTodo] return the state they were given; clicking "Add" on an
    input that is empty once trimmed returns the state it was given, and
    submitting such a text leaves the collection as it was. *)
Theorem operations_degrade_to_noop (st : Basic.State) :
  (∀ op, ∃ st', Basic.step st op = st') ∧
  (∀ id, id ∉ ids (Basic.todos st) →
     Basic.step st (ToggleTodo id) = st ∧
     (∀ newText, Basic.step st (UpdateTodoText id newText) = st) ∧
     Basic.step st (StartEditing id) = st ∧
     Basic.step st (SaveTodoEdit id) = st ∧
     Basic.step st (RemoveTodo id) = st) ∧
  (∀ now, JS.trim (Basic.newTodo st) = [] → Basic.addTodo now st = st) ∧
  (∀ now text, JS.trim text = [] →
     Basic.todos (Basic.step st (AddTodo now text)) = Basic.todos st).
Proof.
  split; [by eauto|]. split; [|split].
  - intros id Hid. simpl.
    repeat split; intros; apply setTodos_same;
      solve [ by apply (per_item_absent id) | by apply removeTodo_absent ].
  - intros now. apply addTodo_blank.
  - intros now text Hblank. simpl. by rewrite addTodo_blank.
Qed.

Lemma operations_degrade_to_noop_witness :
  let st := Basic.mkState [Todo.mk 1 (JS.lit "A") false true] (JS.lit " ") in
  Basic.step st (ToggleTodo 9) = st ∧
  Basic.step st (UpdateTodoText 9 (JS.lit "x")) = st ∧
  Basic.step st (RemoveTodo 9) = st ∧
  Basic.addTodo 3 st = st.
Proof.
  intros st.
  destruct (operations_degrade_to_noop st) as (_ & Hid & Hadd & _).
  assert (9 ∉ ids (Basic.todos st)) as Habsent
    by (apply (bool_decide_unpack _); vm_compute; exact I).
  destruct (Hid 9 Habsent) as (Htoggle & Hupdate & _ & _ & Hremove).
  split; [exact Htoggle|]. split; [exact (Hupdate _)|].
  split; [exact Hremove|]. apply Hadd. reflexivity.
Defined.

(** Two adds within one millisecond make two Todos with one id, and a
    single [removeTodo] of that id then deletes both: the collection
    shrinks by two, not by one. *)
Lemma removeTodo_same_millisecond :
  let todos :=
    Basic.todos
      (Basic.run [AddTodo 5 (JS.lit "A"); AddTodo 5 (JS.lit "B")]
         Basic.init) in
  5 ∈ ids todos ∧ length todos = 2%nat ∧
  length (Basic.removeTodo 5 todos) = 0%nat ∧
  S (length (Basic.removeTodo 5 todos)) ≠ length todos.
Proof.
  vm_compute. split; [by left|]. split; [done|]. split; [done|]. discriminate.
Qed.

(** C4, amended.  [removeTodo id] deletes every Todo that carries [id]:
    none with that id remains, and the length drops by the number of
    Todos that carried it.  When the ids of the collection are pairwise
    distinct and [id] is present, that is a drop of exactly one.  When
    [id] is not present the collection is returned unchanged.  The
    memoized page has the same callback. *)
Theorem removeTodo_deletes_all_matching (id : Z) (todos : list Todo.t) :
  let todos' := Basic.removeTodo id todos in
  (id ∉ ids todos') ∧
  (length todos' + occurrences id todos)%nat = length todos ∧
  (NoDup (ids todos) → id ∈ ids todos → S (length todos') = length todos) ∧
  (id ∉ ids todos → todos' = todos) ∧
  Optimized.removeTodo id todos = todos'.
Proof.
  intros todos'. subst todos'.
  split; [apply removeTodo_gone|]. split; [apply removeTodo_length|].
  split; [|split; [apply removeTodo_absent|reflexivity]].
  intros Hnd Hin. pose proof (removeTodo_length id todos) as Hlen.
  rewrite (occurrences_unique id todos Hnd Hin) in Hlen. lia.
Qed.

Lemma removeTodo_deletes_all_matching_witness :
  let todos := [Todo.mk 1 (JS.lit "A") false false;
                Todo.mk 2 (JS.lit "B") false false] in
  S (length (Basic.removeTodo 1 todos)) = length todos ∧
  Basic.removeTodo 9 todos = todos.
Proof.
  intros todos.
  destruct (removeTodo_deletes_all_matching 1 todos) as (_ & _ & Hone & _).
  destruct (removeTodo_deletes_all_matching 9 todos) as (_ & _ & _ & Hnone & _).
  split.
  - apply Hone; apply (bool_decide_unpack _); vm_compute; exact I.
  - apply Hnone; apply (bool_decide_unpack _); vm_compute; exact I.
Defined.

(** ** Changing the text *)

(** [updateTodoText] rewrites the text of a Todo that is not being
    edited. *)
Lemma updateTodoText_while_not_editing :
  let todo := Todo.mk 1 (JS.lit "A") false false in
  Todo.isEditing todo = false ∧
  Basic.updateTodoText 1 (JS.lit "B") [todo]
    = [Todo.mk 1 (JS.lit "B") false false] ∧
  Optimized.updateTodoText 1 (JS.lit "B") [todo]
    = [Todo.mk 1 (JS.lit "B") false false] ∧
  Basic.updateTodoText 1 (JS.lit "B") [todo] ≠ [todo].
Proof. vm_compute. repeat split. discriminate. Qed.

(** C2, amended.  [updateTodoText id newText] sets the text of every Todo
    with that id, whether or not it is being edited, and changes nothing
    when no Todo has that id.  What ties it to edit mode is the view: a
    list item renders the text field, the only caller of
    [updateTodoText], exactly when its Todo has [isEditing = true], and
    the field passes that Todo's own id.  Both pages agree. *)
Theorem updateTodoText_sets_text (id : Z) (newText : JS.string)
    (todos : list Todo.t) :
  (∀ i todo, todos !! i = Some todo → Todo.id todo = id →
     Basic.updateTodoText id newText todos !! i =
       Some (Todo.mk (Todo.id todo) newText
                     (Todo.completed todo) (Todo.isEditing todo))) ∧
  (id ∉ ids todos → Basic.updateTodoText id newText todos = todos) ∧
  Optimized.updateTodoText id newText todos
    = Basic.updateTodoText id newText todos ∧
  (∀ todo,
     (∀ value onChange, Input value onChange ∈ TodoItem todo →
        Todo.isEditing todo = true ∧ value = Todo.text todo ∧
        ∀ v, onChange v = UpdateTodoText (Todo.id todo) v) ∧
     (Todo.isEditing todo = true →
        ∃ value onChange, Input value onChange ∈ TodoItem todo)).
Proof.
  split; [|split; [|split; [reflexivity|]]].
  - intros i todo Hi Hid. exact (per_item_hit id _ todos i todo Hi Hid).
  - apply (per_item_absent id).
  - intros [tid ttext tcompleted tediting]. unfold TodoItem. simpl. split.
    + intros value onChange Hin.
      destruct tediting; repeat (apply elem_of_cons in Hin as [Heq|Hin]);
        try discriminate Heq; try (by apply elem_of_nil in Hin).
      by injection Heq as -> ->.
    + intros ->. eexists _, _. apply elem_of_cons. right. by left.
Qed.

Lemma updateTodoText_sets_text_witness :
  let todos := [Todo.mk 1 (JS.lit "A") false true;
                Todo.mk 2 (JS.lit "B") false false] in
  Basic.updateTodoText 1 (JS.lit "Ab") todos !! 0%nat
    = Some (Todo.mk 1 (JS.lit "Ab") false true) ∧
  Basic.updateTodoText 9 (JS.lit "Ab") todos = todos.
Proof.
  intros todos.
  destruct (updateTodoText_sets_text 1 (JS.lit "Ab") todos) as (Hset & _).
  destruct (updateTodoText_sets_text 9 (JS.lit "Ab") todos) as (_ & Hnone & _).
  split.
  - exact (Hset 0%nat _ eq_refl eq_refl).
  - apply Hnone; apply (bool_decide_unpack _); vm_compute; exact I.
Defined.

(** ** Order and frame *)

(** C9.  Every operation keeps insertion order, in both pages.  Adding
    a text that is not blank appends the new Todo at the end (with the
    text as typed in the basic page, trimmed in the memoized one) and
    adding a blank text changes nothing; removing keeps exactly the Todos
    with another id, in their relative order; the four other operations
    keep the sequence of ids. *)
Theorem operations_preserve_order (op : Op) (todos : list Todo.t)
    (draft : JS.string) :
  order_preserved (λ text, text) op todos
    (Basic.todos (Basic.step (Basic.mkState todos draft) op)) ∧
  order_preserved JS.trim op todos
    (Optimized.todos (Optimized.step (Optimized.mkState todos draft) op)).
Proof.
  destruct op as [now text|id|id newText|id|id|id]; simpl;
    try (split; by apply (per_item_ids id)).
  - split; (split; intros Htext).
    + by rewrite addTodo_append.
    + by rewrite addTodo_blank.
    + by rewrite handleAdd_append.
    + by rewrite handleAdd_blank.
  - unfold Basic.removeTodo, Optimized.removeTodo.
    split; (split; [apply sublist_filter; apply _|]);
      intros todo; rewrite list_elem_of_filter; tauto.
Qed.

Lemma operations_preserve_order_witness :
  let todos := [Todo.mk 1 (JS.lit "A") false false] in
  Basic.todos
    (Basic.step (Basic.mkState todos []) (AddTodo 3 (JS.lit " C")))
    = todos ++ [Todo.mk 3 (JS.lit " C") false false] ∧
  Optimized.todos
    (Optimized.step (Optimized.mkState todos []) (AddTodo 3 (JS.lit " C")))
    = todos ++ [Todo.mk 3 (JS.lit "C") false false] ∧
  Todo.mk 1 (JS.lit "A") false false
    ∈ Basic.todos (Basic.step (Basic.mkState todos []) (RemoveTodo 2)).
Proof.
  intros todos.
  destruct (operations_preserve_order (AddTodo 3 (JS.lit " C")) todos [])
    as [[Hbasic _] [Hoptimized _]].
  destruct (operations_preserve_order (RemoveTodo 2) todos [])
    as [[_ Hremove] _].
  split; [|split].
  - apply Hbasic. vm_compute. discriminate.
  - apply Hoptimized. vm_compute. discriminate.
  - apply Hremove. split; [by left|]. simpl. lia.
Defined.

(** C10.  In both pages each per-item operation keeps the length of the
    collection, leaves every Todo with another id exactly as it was, and
    on a Todo with the given id changes at most one field: [toggleTodo]
    only [completed], [updateTodoText] only [text], [startEditing] and
    [saveTodoEdit] only [isEditing]. *)
Theorem per_item_operations_frame (id : Z) (todos : list Todo.t) :
  (frame only_completed id todos (Basic.toggleTodo id todos) ∧
   (∀ newText,
      frame only_text id todos (Basic.updateTodoText id newText todos)) ∧
   frame only_isEditing id todos (Basic.startEditing id todos) ∧
   frame only_isEditing id todos (Basic.saveTodoEdit id todos)) ∧
  (frame only_completed id todos (Optimized.toggleTodo id todos) ∧
   (∀ newText,
      frame only_text id todos (Optimized.updateTodoText id newText todos)) ∧
   frame only_isEditing id todos (Optimized.startEditing id todos) ∧
   frame only_isEditing id todos (Optimized.saveTodoEdit id todos)).
Proof.
  split; (split; [|split; [|split]]); intros;
    apply (per_item_frame id); intros ?; by repeat split.
Qed.

Lemma per_item_operations_frame_witness :
  let todos := [Todo.mk 1 (JS.lit "A") false false;
                Todo.mk 2 (JS.lit "B") true false] in
  ∃ todo', Basic.toggleTodo 2 todos !! 0%nat = Some todo' ∧
           todo' = Todo.mk 1 (JS.lit "A") false false.
Proof.
  intros todos.
  destruct (per_item_operations_frame 2 todos) as [[[_ Hframe] _] _].
  destruct (Hframe 0%nat _ eq_refl) as (todo' & Hlookup & _ & Hsame).
  exists todo'. split; [exact Hlookup|]. apply Hsame. discriminate.
Defined.

(** ** [trim] is idempotent *)

Lemma trimStart_clean (s : JS.string) :
  (∀ c, head s = Some c → JS.isWhiteSpace c = false) → JS.trimStart s = s.
Proof.
  destruct s as [|c s]; [done|]. intros Hc. simpl.
  by rewrite (Hc c eq_refl).
Qed.

Lemma trimStart_head (s : JS.string) (c : N) :
  head (JS.trimStart s) = Some c → JS.isWhiteSpace c = false.
Proof.
  induction s as [|c' s IH]; [done|]. simpl.
  destruct (JS.isWhiteSpace c') eqn:Hc'; [done|].
  simpl. by intros [= <-].
Qed.

Lemma trimStart_suffix (s : JS.string) :
  ∃ w, s = w ++ JS.trimStart s.
Proof.
  induction s as [|c s [w IH]]; [by exists []|]. simpl.
  destruct (JS.isWhiteSpace c).
  - exists (c :: w). simpl. by f_equal.
  - by exists [].
Qed.

Lemma trimStart_idemp (s : JS.string) :
  JS.trimStart (JS.trimStart s) = JS.trimStart s.
Proof. apply trimStart_clean, trimStart_head. Qed.

Lemma trimEnd_prefix (s : JS.string) :
  ∃ w, s = JS.trimEnd s ++ w.
Proof.
  unfold JS.trimEnd. destruct (trimStart_suffix (rev s)) as [w Hw].
  exists (rev w). rewrite <- rev_app_distr, <- Hw. by rewrite rev_involutive.
Qed.

Lemma trimEnd_idemp (s : JS.string) :
  JS.trimEnd (JS.trimEnd s) = JS.trimEnd s.
Proof.
  unfold JS.trimEnd. by rewrite rev_involutive, trimStart_idemp.
Qed.

Lemma trim_head (s : JS.string) (c : N) :
  head (JS.trim s) = Some c → JS.isWhiteSpace c = false.
Proof.
  unfold JS.trim. intros Hc. apply (trimStart_head s).
  destruct (trimEnd_prefix (JS.trimStart s)) as [w Hw]. rewrite Hw.
  by destruct (JS.trimEnd (JS.trimStart s)).
Qed.

Lemma trim_idemp (s : JS.string) : JS.trim (JS.trim s) = JS.trim s.
Proof.
  unfold JS.trim at 1. rewrite (trimStart_clean _ (trim_head s)).
  unfold JS.trim. apply trimEnd_idemp.
Qed.

(** ** The two pages compared *)

(** On an input with white space around it the two pages store
    different texts. *)
Lemma variants_differ_on_padded_input :
  let ops := [AddTodo 1 (JS.lit " a ")] in
  Basic.todos (Basic.run ops Basic.init)
    = [Todo.mk 1 (JS.lit " a ") false false] ∧
  Optimized.todos (Optimized.run ops Optimized.init)
    = [Todo.mk 1 (JS.lit "a") false false] ∧
  Basic.todos (Basic.run ops Basic.init)
    ≠ Optimized.todos (Optimized.run ops Optimized.init).
Proof. vm_compute. repeat split. discriminate. Qed.

Lemma step_agree_trim (op : Op) (sb : Basic.State) (so : Optimized.State) :
  Basic.todos sb = Optimized.todos so →
  Basic.todos (Basic.step sb (trim_input op))
    = Optimized.todos (Optimized.step so op).
Proof.
  intros Htodos. destruct op as [now text|id|id newText|id|id|id]; simpl;
    try (by rewrite Htodos).
  unfold Basic.addTodo, Optimized.handleAdd, Optimized.addTodo. simpl.
  rewrite trim_idemp. by case_decide; simpl; rewrite Htodos.
Qed.

Lemma trim_input_trimmed (op : Op) : trimmed_input op → trim_input op = op.
Proof. destruct op; simpl; try done. by intros ->. Qed.

Lemma run_agree_trim (ops : list Op) (sb : Basic.State)
    (so : Optimized.State) :
  Basic.todos sb = Optimized.todos so →
  Basic.todos (Basic.run (trim_inputs ops) sb)
    = Optimized.todos (Optimized.run ops so).
Proof.
  revert sb so. induction ops as [|op ops IH]; intros sb so Htodos; [done|].
  unfold trim_inputs. rewrite fmap_cons. simpl.
  apply IH. by apply step_agree_trim.
Qed.

(** C3, amended.  From equal collections, the memoized page run on a
    sequence of operations ends with the collection the basic page ends
    with on the same sequence with every text submitted to add trimmed:
    the memoized page stores the trimmed text, the basic page the text
    as typed.  So the two pages end with equal collections on every
    sequence whose add inputs have no white space at either end; the five
    other operations are the same functions in both. *)
Theorem variants_agree_up_to_trim (ops : list Op) (sb : Basic.State)
    (so : Optimized.State) :
  Basic.todos sb = Optimized.todos so →
  Basic.todos (Basic.run (trim_inputs ops) sb)
    = Optimized.todos (Optimized.run ops so) ∧
  (trimmed_inputs ops →
   Basic.todos (Basic.run ops sb) = Optimized.todos (Optimized.run ops so)).
Proof.
  intros Htodos. split; [by apply run_agree_trim|].
  intros Htrimmed. rewrite <- (run_agree_trim ops sb so Htodos).
  f_equal. f_equal. unfold trim_inputs.
  rewrite <- (list_fmap_id ops) at 1. apply Forall_fmap_ext.
  eapply Forall_impl; [exact Htrimmed|].
  intros op Hop. simpl. by rewrite trim_input_trimmed.
Qed.

Lemma variants_agree_up_to_trim_witness :
  let ops := [AddTodo 1 (JS.lit "A"); AddTodo 2 (JS.lit "B c");
              StartEditing 2; UpdateTodoText 2 (JS.lit " B"); SaveTodoEdit 2;
              ToggleTodo 1; RemoveTodo 1; AddTodo 3 (JS.lit "")] in
  Basic.todos (Basic.run ops Basic.init)
    = Optimized.todos (Optimized.run ops Optimized.init).
Proof.
  intros ops.
  apply (variants_agree_up_to_trim ops Basic.init Optimized.init).
  - reflexivity.
  - repeat constructor.
Defined.

(** ** Ids *)


Lemma StronglySorted_sublist {A} (R : relation A) (l k : list A) :
  l `sublist_of` k → StronglySorted R k → StronglySorted R l.
Proof.
  induction 1 as [|x l k Hsub IH|x l k Hsub IH]; intros Hk; [done|..].
  - apply StronglySorted_cons in Hk as [Hx Hk].
    apply StronglySorted_cons. split; [|by apply IH].
    rewrite Forall_forall in Hx |- *.
    intros y Hy. apply Hx. by eapply elem_of_sublist.
  - apply StronglySorted_cons in Hk as [_ Hk]. by apply IH.
Qed.

Lemma StronglySorted_lt_NoDup (l : list Z) :
  StronglySorted Z.lt l → NoDup l.
Proof.
  induction l as [|x l IH]; intros Hl; [constructor|].
  apply StronglySorted_cons in Hl as [Hx Hl].
  apply NoDup_cons. split; [|by apply IH].
  intros Hin. rewrite Forall_forall in Hx. specialize (Hx x Hin). lia.
Qed.

(** What one operation does to the ids, common to both pages: an add at
    clock reading [now] appends [now] or nothing, and every other
    operation leaves a subsequence. *)
Section Ids.

Context {State : Type}.
Variable todos : State → list Todo.t.
Variable step : State → Op → State.

Hypothesis step_ids : ∀ st op,
  match op with
  | AddTodo now _ =>
      ids (todos (step st op)) = ids (todos st) ∨
      ids (todos (step st op)) = ids (todos st) ++ [now]
  | _ => ids (todos (step st op)) `sublist_of` ids (todos st)
  end.

Lemma run_ids_sorted (ops : list Op) (st : State) :
  StronglySorted Z.lt (ids (todos st) ++ stamps ops) →
  StronglySorted Z.lt (ids (todos (foldl step st ops))).
Proof.
  revert st. induction ops as [|op ops IH]; intros st Hsorted; simpl.
  - by rewrite app_nil_r in Hsorted.
  - apply IH. pose proof (step_ids st op) as Hstep.
    destruct op as [now text|id|id newText|id|id|id]; simpl in Hsorted;
      try (eapply StronglySorted_sublist; [|exact Hsorted];
           by apply sublist_app).
    destruct Hstep as [-> | ->].
    + eapply StronglySorted_sublist; [|exact Hsorted].
      apply sublist_app; [done|]. by apply sublist_cons.
    + by rewrite <- app_assoc.
Qed.

Lemma run_ids_stamps (ops : list Op) (st : State) (id : Z) :
  id ∈ ids (todos (foldl step st ops)) →
  id ∈ ids (todos st) ∨ id ∈ stamps ops.
Proof.
  revert st. induction ops as [|op ops IH]; intros st Hid; simpl in *.
  - by left.
  - destruct (IH _ Hid) as [Hin|Hin].
    + pose proof (step_ids st op) as Hstep.
      destruct op as [now text|id'|id' newText|id'|id'|id']; simpl;
        try (left; eapply elem_of_sublist; eauto; fail).
      destruct Hstep as [Heq|Heq]; rewrite Heq in Hin; [by left|].
      apply elem_of_app in Hin as [Hin|Hin]; [by left|].
      apply list_elem_of_singleton in Hin as ->. right. by left.
    + right. destruct op; simpl; try done. by right.
Qed.

End Ids.

Lemma Basic_step_ids (st : Basic.State) (op : Op) :
  match op with
  | AddTodo now _ =>
      ids (Basic.todos (Basic.step st op)) = ids (Basic.todos st) ∨
      ids (Basic.todos (Basic.step st op)) = ids (Basic.todos st) ++ [now]
  | _ => ids (Basic.todos (Basic.step st op)) `sublist_of` ids (Basic.todos st)
  end.
Proof.
  destruct op as [now text|id|id newText|id|id|id]; simpl;
    try (match goal with
         | |- ?l `sublist_of` ?k =>
             by replace l with k by (symmetry; by apply (per_item_ids id))
         end);
    try (unfold ids; apply fmap_sublist, sublist_filter; apply _).
  unfold Basic.addTodo. case_decide; simpl; [right|by left].
  unfold ids. by rewrite fmap_app.
Qed.

Lemma Optimized_step_ids (st : Optimized.State) (op : Op) :
  match op with
  | AddTodo now _ =>
      ids (Optimized.todos (Optimized.step st op))
        = ids (Optimized.todos st) ∨
      ids (Optimized.todos (Optimized.step st op))
        = ids (Optimized.todos st) ++ [now]
  | _ => ids (Optimized.todos (Optimized.step st op))
           `sublist_of` ids (Optimized.todos st)
  end.
Proof.
  destruct op as [now text|id|id newText|id|id|id]; simpl;
    try (match goal with
         | |- ?l `sublist_of` ?k =>
             by replace l with k by (symmetry; by apply (per_item_ids id))
         end);
    try (unfold ids; apply fmap_sublist, sublist_filter; apply _).
  unfold Optimized.handleAdd, Optimized.addTodo.
  case_decide; simpl; [right|by left].
  unfold ids. by rewrite fmap_app.
Qed.

Lemma stamps_app (ops1 ops2 : list Op) :
  stamps (ops1 ++ ops2) = stamps ops1 ++ stamps ops2.
Proof. apply omap_app. Qed.

(** What one operation does to the ids, with the clock readings that are
    really taken: some of the ids stay, in their order, and the reading
    of the operation, if it takes one, comes after them. *)
Section Readings.

Context {State : Type}.
Variable todos : State → list Todo.t.
Variable step : State → Op → State.

Hypothesis step_readings : ∀ st op,
  ∃ kept, kept `sublist_of` ids (todos st) ∧
          ids (todos (step st op)) = kept ++ readings [op].

Lemma readings_cons (op : Op) (ops : list Op) :
  readings (op :: ops) = readings [op] ++ readings ops.
Proof. change (op :: ops) with ([op] ++ ops). apply omap_app. Qed.

Lemma run_ids_NoDup (ops : list Op) (st : State) :
  NoDup (ids (todos st) ++ readings ops) →
  NoDup (ids (todos (foldl step st ops))).
Proof.
  revert st. induction ops as [|op ops IH]; intros st Hnd; simpl.
  - by rewrite app_nil_r in Hnd.
  - apply IH. destruct (step_readings st op) as (kept & Hkept & ->).
    rewrite readings_cons in Hnd. rewrite <- app_assoc.
    eapply sublist_NoDup; [exact Hnd|]. by apply sublist_app.
Qed.

Lemma run_ids_readings (ops : list Op) (st : State) (id : Z) :
  id ∈ ids (todos (foldl step st ops)) →
  id ∈ ids (todos st) ∨ id ∈ readings ops.
Proof.
  revert st. induction ops as [|op ops IH]; intros st Hid; simpl in Hid.
  - by left.
  - rewrite readings_cons. destruct (IH _ Hid) as [Hin|Hin].
    + destruct (step_readings st op) as (kept & Hkept & Heq).
      rewrite Heq in Hin. apply elem_of_app in Hin as [Hin|Hin].
      * left. by eapply elem_of_sublist.
      * right. apply elem_of_app. by left.
    + right. apply elem_of_app. by right.
Qed.

End Readings.

Lemma Basic_step_readings (st : Basic.State) (op : Op) :
  ∃ kept, kept `sublist_of` ids (Basic.todos st) ∧
          ids (Basic.todos (Basic.step st op)) = kept ++ readings [op].
Proof.
  destruct op as [now text|id|id newText|id|id|id];
    try (exists (ids (Basic.todos st)); split; [done|];
         unfold readings; simpl; rewrite app_nil_r;
         by apply (per_item_ids id)).
  - exists (ids (Basic.todos st)). split; [done|].
    unfold readings, Basic.step, Basic.addTodo. simpl.
    case_decide; simpl; [|by rewrite app_nil_r].
    unfold ids. by rewrite fmap_app.
  - exists (ids (Basic.todos (Basic.step st (RemoveTodo id)))).
    split; [|unfold readings; simpl; by rewrite app_nil_r].
    unfold ids. simpl. apply fmap_sublist, sublist_filter.
Qed.

Lemma Optimized_step_readings (st : Optimized.State) (op : Op) :
  ∃ kept, kept `sublist_of` ids (Optimized.todos st) ∧
          ids (Optimized.todos (Optimized.step st op))
          = kept ++ readings [op].
Proof.
  destruct op as [now text|id|id newText|id|id|id];
    try (exists (ids (Optimized.todos st)); split; [done|];
         unfold readings; simpl; rewrite app_nil_r;
         by apply (per_item_ids id)).
  - exists (ids (Optimized.todos st)). split; [done|].
    unfold readings, Optimized.step, Optimized.handleAdd, Optimized.addTodo.
    simpl. case_decide; simpl; [|by rewrite app_nil_r].
    unfold ids. by rewrite fmap_app.
  - exists (ids (Optimized.todos (Optimized.step st (RemoveTodo id)))).
    split; [|unfold readings; simpl; by rewrite app_nil_r].
    unfold ids. simpl. apply fmap_sublist, sublist_filter.
Qed.



(** ** How the operations compose *)

(** Equations between compositions of the four [map] callbacks are
    settled Todo by Todo. *)
Ltac pointwise :=
  unfold Basic.toggleTodo, Basic.startEditing, Basic.updateTodoText,
    Basic.saveTodoEdit, Optimized.toggleTodo, Optimized.startEditing,
    Optimized.updateTodoText, Optimized.saveTodoEdit, per_item;
  rewrite <- ?list_fmap_compose;
  apply list_fmap_ext; intros ? [? ? ? ?] _; simpl;
  repeat (case_decide; simpl in *); congruence.

Lemma removeTodo_comm (id id' : Z) (todos : list Todo.t) :
  Basic.removeTodo id (Basic.removeTodo id' todos)
  = Basic.removeTodo id' (Basic.removeTodo id todos).
Proof.
  unfold Basic.removeTodo. rewrite !list_filter_filter.
  apply list_filter_iff. intros todo. tauto.
Qed.

Lemma removeTodo_per_item (g : Todo.t → Todo.t) (id id' : Z)
    (todos : list Todo.t) :
  (∀ todo, Todo.id (g todo) = Todo.id todo) →
  Basic.removeTodo id (per_item g id' todos)
  = per_item g id' (Basic.removeTodo id todos).
Proof.
  intros Hg. unfold Basic.removeTodo, per_item.
  induction todos as [|todo todos IH]; [done|].
  rewrite fmap_cons.
  assert (Todo.id (if decide (Todo.id todo = id') then g todo else todo)
          = Todo.id todo) as Hid by (by case_decide).
  destruct (decide (Todo.id todo = id)) as [Heq|Hne].
  - rewrite !filter_cons_False by (rewrite ?Hid; by intros H'; apply H').
    exact IH.
  - rewrite !filter_cons_True by (by rewrite ?Hid).
    rewrite fmap_cons. by f_equal.
Qed.

(** X1.  A second click on "Add" right after the first does nothing, at
    any later clock reading: the first click either added nothing (and
    the second finds the same input) or cleared the field.  So one typed
    text gives at most one Todo.  Same for [handleAdd]. *)
Theorem addTodo_second_click_noop (now now' : Z) :
  (∀ st : Basic.State,
     Basic.addTodo now' (Basic.addTodo now st) = Basic.addTodo now st) ∧
  (∀ st : Optimized.State,
     Optimized.handleAdd (Optimized.addTodo now')
       (Optimized.handleAdd (Optimized.addTodo now) st)
     = Optimized.handleAdd (Optimized.addTodo now) st).
Proof.
  split; intros st.
  - destruct (decide (JS.trim (Basic.newTodo st) = [])) as [Hblank|Htext].
    + rewrite (addTodo_blank now st Hblank). by apply addTodo_blank.
    + rewrite (addTodo_append now st Htext). by apply addTodo_blank.
  - destruct (decide (JS.trim (Optimized.newTodo st) = []))
      as [Hblank|Htext].
    + rewrite (handleAdd_blank _ st Hblank). by apply handleAdd_blank.
    + rewrite (handleAdd_append now st Htext). by apply handleAdd_blank.
Qed.

(** X2.  Adding and then removing the id just given restores the
    collection, provided no Todo already carried that id.  Both pages. *)
Theorem add_then_remove_restores (now : Z) (text : JS.string)
    (todos : list Todo.t) (draft : JS.string) :
  now ∉ ids todos →
  Basic.todos
    (Basic.run [AddTodo now text; RemoveTodo now]
       (Basic.mkState todos draft)) = todos ∧
  Optimized.todos
    (Optimized.run [AddTodo now text; RemoveTodo now]
       (Optimized.mkState todos draft)) = todos.
Proof.
  intros Hfresh. simpl.
  pose proof (removeTodo_absent now todos Hfresh) as Hsame.
  unfold Basic.removeTodo in Hsame. split.
  - unfold Basic.addTodo. case_decide; simpl; [|done].
    unfold Basic.removeTodo. rewrite filter_app, Hsame.
    rewrite filter_cons_False by (by intros H'; apply H').
    by rewrite filter_nil, app_nil_r.
  - unfold Optimized.handleAdd, Optimized.addTodo.
    case_decide; simpl; [|done].
    unfold Optimized.removeTodo. rewrite filter_app, Hsame.
    rewrite filter_cons_False by (by intros H'; apply H').
    by rewrite filter_nil, app_nil_r.
Qed.

Lemma add_then_remove_restores_witness :
  let todos := [Todo.mk 1 (JS.lit "A") false false] in
  Basic.todos
    (Basic.run [AddTodo 2 (JS.lit "B"); RemoveTodo 2]
       (Basic.mkState todos [])) = todos.
Proof.
  intros todos. apply (add_then_remove_restores 2 (JS.lit "B") todos []).
  apply (bool_decide_unpack _). vm_compute. exact I.
Defined.

(** X3.  Removing the same id twice is removing it once, and two
    removals can be done in either order. *)
Theorem removeTodo_idempotent_commutative (id id' : Z)
    (todos : list Todo.t) :
  Basic.removeTodo id (Basic.removeTodo id todos) = Basic.removeTodo id todos ∧
  Basic.removeTodo id (Basic.removeTodo id' todos)
    = Basic.removeTodo id' (Basic.removeTodo id todos).
Proof.
  split; [|apply removeTodo_comm].
  unfold Basic.removeTodo. by apply list_filter_filter_l.
Qed.

(** X4.  Of two texts written to the same id only the last one counts,
    which is what typing into the field relies on: each keystroke writes
    the whole value. *)
Theorem updateTodoText_last_write_wins (id : Z) (text1 text2 : JS.string)
    (todos : list Todo.t) :
  Basic.updateTodoText id text2 (Basic.updateTodoText id text1 todos)
  = Basic.updateTodoText id text2 todos.
Proof. pointwise. Qed.

(** X5.  [startEditing] and [saveTodoEdit] overwrite the flag: of any
    two of them on the same id the second one decides, whatever the flag
    was before. *)
Theorem isEditing_last_write_wins (id : Z) (todos : list Todo.t) :
  Basic.startEditing id (Basic.startEditing id todos)
    = Basic.startEditing id todos ∧
  Basic.saveTodoEdit id (Basic.saveTodoEdit id todos)
    = Basic.saveTodoEdit id todos ∧
  Basic.startEditing id (Basic.saveTodoEdit id todos)
    = Basic.startEditing id todos ∧
  Basic.saveTodoEdit id (Basic.startEditing id todos)
    = Basic.saveTodoEdit id todos.
Proof. repeat split; pointwise. Qed.

(** X6.  A whole edit (pencil, type, check) amounts to writing the text:
    on every collection it equals [updateTodoText] followed by
    [saveTodoEdit], the text is stored as typed, blank or not, and the
    Todos with that id end out of edit mode with [completed] untouched. *)
Theorem edit_session (id : Z) (newText : JS.string) (todos : list Todo.t) :
  let todos' :=
    Basic.saveTodoEdit id
      (Basic.updateTodoText id newText (Basic.startEditing id todos)) in
  todos' = Basic.saveTodoEdit id (Basic.updateTodoText id newText todos) ∧
  todos' =
    per_item (λ todo, Todo.mk (Todo.id todo) newText
                              (Todo.completed todo) false) id todos.
Proof. split; pointwise. Qed.

(** Two operations other than add, run in both orders from one state. *)
Ltac commute_cases :=
  simpl; unfold Basic.setTodos, Optimized.setTodos; simpl; f_equal;
  first
    [ apply removeTodo_comm
    | by apply removeTodo_per_item
    | symmetry; by apply removeTodo_per_item
    | pointwise ].

(** X7.  Two operations aimed at different ids can be done in either
    order, in both pages: toggling, editing or removing one Todo never
    depends on what was done to another. *)
Theorem operations_on_different_ids_commute (op1 op2 : Op) (id1 id2 : Z) :
  target op1 = Some id1 → target op2 = Some id2 → id1 ≠ id2 →
  (∀ st, Basic.step (Basic.step st op1) op2
         = Basic.step (Basic.step st op2) op1) ∧
  (∀ st, Optimized.step (Optimized.step st op1) op2
         = Optimized.step (Optimized.step st op2) op1).
Proof.
  intros Hop1 Hop2 Hne.
  destruct op1; try discriminate Hop1; destruct op2; try discriminate Hop2;
    simpl in Hop1, Hop2; simplify_eq; split; intros st; commute_cases.
Qed.

Lemma operations_on_different_ids_commute_witness :
  let st := Basic.mkState [Todo.mk 1 (JS.lit "A") false false;
                           Todo.mk 2 (JS.lit "B") false true] [] in
  Basic.step (Basic.step st (RemoveTodo 1)) (UpdateTodoText 2 (JS.lit "Bc"))
  = Basic.step (Basic.step st (UpdateTodoText 2 (JS.lit "Bc"))) (RemoveTodo 1).
Proof.
  intros st.
  apply (operations_on_different_ids_commute
           (RemoveTodo 1) (UpdateTodoText 2 (JS.lit "Bc")) 1 2);
    [reflexivity | reflexivity | lia].
Defined.

(** X8.  Completion is independent of editing and removal: toggling
    commutes with every operation other than add, the same id
    included. *)
Theorem toggleTodo_commutes (id : Z) (op : Op) :
  target op ≠ None →
  (∀ st, Basic.step (Basic.step st (ToggleTodo id)) op
         = Basic.step (Basic.step st op) (ToggleTodo id)) ∧
  (∀ st, Optimized.step (Optimized.step st (ToggleTodo id)) op
         = Optimized.step (Optimized.step st op) (ToggleTodo id)).
Proof.
  intros Hop. destruct op; try (by destruct Hop);
    split; intros st; commute_cases.
Qed.

Lemma toggleTodo_commutes_witness :
  let st := Basic.mkState [Todo.mk 1 (JS.lit "A") false false] [] in
  Basic.step (Basic.step st (ToggleTodo 1)) (StartEditing 1)
  = Basic.step (Basic.step st (StartEditing 1)) (ToggleTodo 1).
Proof.
  intros st. apply (toggleTodo_commutes 1 (StartEditing 1)). discriminate.
Defined.

(** An operation aimed at another id passes over a Todo appended at the
    end. *)
Ltac past_appended :=
  unfold Basic.toggleTodo, Basic.startEditing, Basic.updateTodoText,
    Basic.saveTodoEdit, Basic.removeTodo, Optimized.toggleTodo,
    Optimized.startEditing, Optimized.updateTodoText,
    Optimized.saveTodoEdit, Optimized.removeTodo;
  first
    [ rewrite fmap_app; simpl; by rewrite decide_False by congruence
    | rewrite filter_app, filter_cons_True by (simpl; congruence);
      by rewrite filter_nil ].

(** X9.  An add commutes with any operation aimed at an id other than
    the clock reading the add takes, in both pages: what is done to the
    existing Todos does not depend on whether the new one is already
    there. *)
Theorem add_commutes_with_other_ids (now : Z) (text : JS.string)
    (op : Op) (id : Z) :
  target op = Some id → id ≠ now →
  (∀ st, Basic.step (Basic.step st (AddTodo now text)) op
         = Basic.step (Basic.step st op) (AddTodo now text)) ∧
  (∀ st, Optimized.step (Optimized.step st (AddTodo now text)) op
         = Optimized.step (Optimized.step st op) (AddTodo now text)).
Proof.
  intros Hop Hne.
  destruct op; try discriminate Hop; simpl in Hop; simplify_eq;
    split; intros st; simpl;
    unfold Basic.addTodo, Basic.setTodos, Basic.setNewTodo,
      Optimized.handleAdd, Optimized.addTodo, Optimized.setTodos,
      Optimized.handleChange; simpl;
    case_decide; simpl; try done; f_equal; past_appended.
Qed.

Lemma add_commutes_with_other_ids_witness :
  let st := Basic.mkState [Todo.mk 1 (JS.lit "A") false false] [] in
  Basic.step (Basic.step st (AddTodo 2 (JS.lit "B"))) (RemoveTodo 1)
  = Basic.step (Basic.step st (RemoveTodo 1)) (AddTodo 2 (JS.lit "B")).
Proof.
  intros st.
  apply (add_commutes_with_other_ids 2 (JS.lit "B") (RemoveTodo 1) 1);
    [reflexivity | lia].
Defined.

(** ** Whole traces *)

Lemma Basic_step_length (st : Basic.State) (op : Op) :
  (length (Basic.todos (Basic.step st op))
   ≤ length (Basic.todos st) + length (stamps [op]))%nat.
Proof.
  destruct op; unfold stamps; simpl;
    unfold Basic.toggleTodo, Basic.startEditing, Basic.updateTodoText,
      Basic.saveTodoEdit, Optimized.toggleTodo, Optimized.startEditing,
      Optimized.updateTodoText, Optimized.saveTodoEdit;
    rewrite ?length_fmap; try lia.
  - unfold Basic.addTodo. case_decide; simpl; rewrite ?length_app; simpl; lia.
  - etrans; [apply (length_filter (λ todo, Todo.id todo ≠ id))|lia].
Qed.

Lemma Optimized_step_length (st : Optimized.State) (op : Op) :
  (length (Optimized.todos (Optimized.step st op))
   ≤ length (Optimized.todos st) + length (stamps [op]))%nat.
Proof.
  destruct op; unfold stamps; simpl;
    unfold Basic.toggleTodo, Basic.startEditing, Basic.updateTodoText,
      Basic.saveTodoEdit, Optimized.toggleTodo, Optimized.startEditing,
      Optimized.updateTodoText, Optimized.saveTodoEdit;
    rewrite ?length_fmap; try lia.
  - unfold Optimized.handleAdd, Optimized.addTodo.
    case_decide; simpl; rewrite ?length_app; simpl; lia.
  - etrans; [apply (length_filter (λ todo, Todo.id todo ≠ id))|lia].
Qed.

Lemma stamps_cons_length (op : Op) (ops : list Op) :
  length (stamps (op :: ops))
  = (length (stamps [op]) + length (stamps ops))%nat.
Proof.
  change (op :: ops) with ([op] ++ ops). by rewrite stamps_app, length_app.
Qed.

(** X10.  Only adds grow the collection, by one Todo at most each: after
    any sequence of operations, in both pages, the collection has at most
    as many Todos more than it started with as the sequence has adds. *)
Theorem run_length_bound (ops : list Op) :
  (∀ st, (length (Basic.todos (Basic.run ops st))
          ≤ length (Basic.todos st) + length (stamps ops))%nat) ∧
  (∀ st, (length (Optimized.todos (Optimized.run ops st))
          ≤ length (Optimized.todos st) + length (stamps ops))%nat).
Proof.
  split; induction ops as [|op ops IH]; intros st; try (simpl; lia).
  - pose proof (IH (Basic.step st op)) as Hrun.
    pose proof (Basic_step_length st op) as Hstep.
    rewrite stamps_cons_length.
    change (Basic.run (op :: ops) st) with (Basic.run ops (Basic.step st op)).
    lia.
  - pose proof (IH (Optimized.step st op)) as Hrun.
    pose proof (Optimized_step_length st op) as Hstep.
    rewrite stamps_cons_length.
    change (Optimized.run (op :: ops) st)
      with (Optimized.run ops (Optimized.step st op)).
    lia.
Qed.

(** X11.  No operation invents or rewrites an id: in both pages every id
    in the collection after a sequence of operations was in the
    collection before it or is the clock reading of one of its adds. *)
Theorem run_ids_provenance (ops : list Op) (id : Z) :
  (∀ st, id ∈ ids (Basic.todos (Basic.run ops st)) →
         id ∈ ids (Basic.todos st) ∨ id ∈ stamps ops) ∧
  (∀ st, id ∈ ids (Optimized.todos (Optimized.run ops st)) →
         id ∈ ids (Optimized.todos st) ∨ id ∈ stamps ops).
Proof.
  split; intros st.
  - apply (run_ids_stamps Basic.todos Basic.step Basic_step_ids).
  - apply (run_ids_stamps Optimized.todos Optimized.step Optimized_step_ids).
Qed.

Lemma run_ids_provenance_witness :
  let ops := [AddTodo 3 (JS.lit "C"); RemoveTodo 1] in
  let st := Basic.mkState [Todo.mk 1 (JS.lit "A") false false] [] in
  3 ∈ ids (Basic.todos st) ∨ 3 ∈ stamps ops.
Proof.
  intros ops st. apply (run_ids_provenance ops 3).
  apply (bool_decide_unpack _). vm_compute. exact I.
Defined.

(** X12.  While the clock readings of successive adds strictly increase
    and exceed the ids already there, the collection stays sorted by id,
    strictly increasing: collection order is creation order, and the last
    Todo is the newest.  Both pages. *)
Theorem run_ids_increasing (ops : list Op) :
  (∀ st, StronglySorted Z.lt (ids (Basic.todos st) ++ stamps ops) →
         StronglySorted Z.lt (ids (Basic.todos (Basic.run ops st)))) ∧
  (∀ st, StronglySorted Z.lt (ids (Optimized.todos st) ++ stamps ops) →
         StronglySorted Z.lt
           (ids (Optimized.todos (Optimized.run ops st)))).
Proof.
  split; intros st.
  - apply (run_ids_sorted Basic.todos Basic.step Basic_step_ids).
  - apply (run_ids_sorted Optimized.todos Optimized.step Optimized_step_ids).
Qed.

Lemma run_ids_increasing_witness :
  let ops := [AddTodo 3 (JS.lit "C"); RemoveTodo 1; AddTodo 4 (JS.lit "D")] in
  let st := Basic.mkState [Todo.mk 1 (JS.lit "A") false false;
                           Todo.mk 2 (JS.lit "B") false false] [] in
  StronglySorted Z.lt (ids (Basic.todos (Basic.run ops st))).
Proof.
  intros ops st. apply (run_ids_increasing ops).
  apply (bool_decide_unpack _). vm_compute. exact I.
Defined.

(** ** The two pages, side by side *)

Lemma Forall2_filter_agree {A B} (R : A → B → Prop) (P : A → Prop)
    (Q : B → Prop) `{!∀ x, Decision (P x), !∀ y, Decision (Q y)}
    (l : list A) (k : list B) :
  (∀ x y, R x y → (P x ↔ Q y)) →
  Forall2 R l k → Forall2 R (filter P l) (filter Q k).
Proof.
  intros HPQ. induction 1 as [|x y l k Hxy Hlk IH]; [constructor|].
  destruct (decide (P x)) as [HP|HP].
  - rewrite (filter_cons_True P) by done.
    rewrite (filter_cons_True Q) by (by apply (HPQ x y Hxy)).
    by constructor.
  - rewrite (filter_cons_False P) by done.
    rewrite (filter_cons_False Q) by (by rewrite <- (HPQ x y Hxy)).
    exact IH.
Qed.

Lemma step_same_but_text (op : Op) (sb : Basic.State)
    (so : Optimized.State) :
  Forall2 same_but_text (Basic.todos sb) (Optimized.todos so) →
  Basic.newTodo sb = Optimized.newTodo so →
  Forall2 same_but_text (Basic.todos (Basic.step sb op))
    (Optimized.todos (Optimized.step so op)) ∧
  Basic.newTodo (Basic.step sb op) = Optimized.newTodo (Optimized.step so op).
Proof.
  intros Htodos Hdraft.
  destruct op as [now text|id|id newText|id|id|id]; simpl;
    try (split; [|done]; apply Forall2_fmap_2;
         eapply Forall2_impl; [exact Htodos|];
         intros [? ? ? ?] [? ? ? ?] (Hid & Hc & He); simpl in *; subst;
         case_decide; by repeat split).
  - unfold Basic.addTodo, Optimized.handleAdd, Optimized.addTodo. simpl.
    case_decide; simpl; [|done]. split; [|done].
    apply Forall2_app; [done|]. by repeat constructor.
  - split; [|done]. apply Forall2_filter_agree; [|done].
    intros todo todo' (Hid & _). by rewrite Hid.
Qed.

(** X13.  Whatever is typed, the two pages differ in texts only: after
    the same sequence of operations from states alike, their collections
    have the same length and agree Todo by Todo on id, [completed] and
    [isEditing], and their input fields hold the same draft. *)
Theorem pages_agree_but_for_text (ops : list Op) (sb : Basic.State)
    (so : Optimized.State) :
  Forall2 same_but_text (Basic.todos sb) (Optimized.todos so) →
  Basic.newTodo sb = Optimized.newTodo so →
  Forall2 same_but_text (Basic.todos (Basic.run ops sb))
    (Optimized.todos (Optimized.run ops so)) ∧
  Basic.newTodo (Basic.run ops sb) = Optimized.newTodo (Optimized.run ops so).
Proof.
  revert sb so. induction ops as [|op ops IH]; intros sb so Htodos Hdraft;
    [done|].
  destruct (step_same_but_text op sb so Htodos Hdraft) as [Htodos' Hdraft'].
  exact (IH _ _ Htodos' Hdraft').
Qed.

Lemma pages_agree_but_for_text_witness :
  let ops := [AddTodo 1 (JS.lit " A "); ToggleTodo 1; AddTodo 2 (JS.lit " ");
              StartEditing 1] in
  Forall2 same_but_text (Basic.todos (Basic.run ops Basic.init))
    (Optimized.todos (Optimized.run ops Optimized.init)).
Proof.
  intros ops.
  apply (pages_agree_but_for_text ops Basic.init Optimized.init);
    [constructor | reflexivity].
Defined.

(** ** The view *)

Lemma TodoItem_inj (todo todo' : Todo.t) :
  TodoItem todo = TodoItem todo' → todo = todo'.
Proof.
  destruct todo as [tid ttext tcompleted tediting],
           todo' as [tid' ttext' tcompleted' tediting'].
  unfold TodoItem. simpl. intros Heq.
  injection Heq as Hcompleted Hid Hsecond _ _.
  destruct tediting, tediting'; try discriminate Hsecond;
    injection Hsecond; intros; by subst.
Qed.

Lemma items_inj (todos todos' : list Todo.t) :
  (λ todo, Li (Todo.id todo) (TodoItem todo)) <$> todos
  = (λ todo, Li (Todo.id todo) (TodoItem todo)) <$> todos' →
  todos = todos'.
Proof.
  revert todos'. induction todos as [|todo todos IH];
    intros [|todo' todos'] Heq; try done.
  rewrite !fmap_cons in Heq. injection Heq; intros.
  f_equal; [|by apply IH].
  apply TodoItem_inj. unfold TodoItem. congruence.
Qed.

(** X14.  What is on screen determines the state: two states that
    render alike are the same state, in both pages.  Nothing of a Todo
    is hidden from the user, and none of it is shown ambiguously. *)
Theorem render_injective :
  (∀ st st' : Basic.State,
     Basic.render st = Basic.render st' → st = st') ∧
  (∀ st st' : Optimized.State,
     Optimized.render st = Optimized.render st' → st = st').
Proof.
  split; intros [todos draft] [todos' draft'];
    unfold Basic.render, Optimized.render, Optimized.TodoInput; simpl;
    intros Heq; injection Heq as Hdraft Hitems;
    apply items_inj in Hitems; by subst.
Qed.

Lemma render_injective_witness :
  Basic.run [AddTodo 1 (JS.lit "A"); AddTodo 2 (JS.lit "B");
             StartEditing 1; ToggleTodo 2; AddTodo 3 (JS.lit " ")] Basic.init
  = Basic.mkState [Todo.mk 1 (JS.lit "A") false true;
                   Todo.mk 2 (JS.lit "B") true false] (JS.lit " ") ∧
  Optimized.run [AddTodo 1 (JS.lit "A"); AddTodo 2 (JS.lit "B");
                 StartEditing 1; ToggleTodo 2] Optimized.init
  = Optimized.mkState [Todo.mk 1 (JS.lit "A") false true;
                       Todo.mk 2 (JS.lit "B") true false] [].
Proof.
  split.
  - apply (proj1 render_injective). vm_compute. reflexivity.
  - apply (proj2 render_injective). vm_compute. reflexivity.
Defined.

Lemma TodoItem_issues (todo : Todo.t) (e : Element) (op : Op) :
  e ∈ TodoItem todo → issues e op →
  op = ToggleTodo (Todo.id todo) ∨
  (Todo.isEditing todo = true ∧
   ∃ value, op = UpdateTodoText (Todo.id todo) value) ∨
  (Todo.isEditing todo = true ∧ op = SaveTodoEdit (Todo.id todo)) ∨
  (Todo.isEditing todo = false ∧ op = StartEditing (Todo.id todo)) ∨
  op = RemoveTodo (Todo.id todo).
Proof.
  unfold TodoItem. intros He Hop.
  destruct (Todo.isEditing todo);
    repeat (apply elem_of_cons in He as [->|He]); simpl in Hop;
    try (by apply elem_of_nil in He); try done; eauto 10.
Qed.

(** X15.  The list never sends an operation that misses: every call a
    rendered item can make is aimed at the id of its own Todo, which is
    in the collection, so the no-op branches for an unknown id are not
    reachable from the screen, and the trash button always shortens the
    collection. *)
Theorem issued_operations_hit (todos : list Todo.t) (todo : Todo.t)
    (e : Element) (op : Op) :
  todo ∈ todos → e ∈ TodoItem todo → issues e op →
  target op = Some (Todo.id todo) ∧
  Todo.id todo ∈ ids todos ∧
  (length (Basic.removeTodo (Todo.id todo) todos) < length todos)%nat.
Proof.
  intros Hin He Hop. split; [|split].
  - destruct (TodoItem_issues todo e op He Hop)
      as [->|[[_ [v ->]]|[[_ ->]|[[_ ->]| ->]]]]; done.
  - unfold ids. by apply list_elem_of_fmap_2.
  - unfold Basic.removeTodo. apply (length_filter_lt _ _ todo); [done|].
    by intros Hne; apply Hne.
Qed.

Lemma issued_operations_hit_witness :
  let todo := Todo.mk 1 (JS.lit "A") false true in
  target (UpdateTodoText 1 (JS.lit "Ab")) = Some (Todo.id todo).
Proof.
  intros todo.
  apply (issued_operations_hit [todo] todo
           (Input (JS.lit "A") (λ value, UpdateTodoText 1 value))
           (UpdateTodoText 1 (JS.lit "Ab"))).
  - by left.
  - right. by left.
  - by exists (JS.lit "Ab").
Defined.

Lemma NoDup_ids_same (todos : list Todo.t) (todo todo' : Todo.t) :
  NoDup (ids todos) → todo ∈ todos → todo' ∈ todos →
  Todo.id todo = Todo.id todo' → todo = todo'.
Proof.
  intros Hnd [i Hi]%list_elem_of_lookup [j Hj]%list_elem_of_lookup Hid.
  assert (i = j) as ->; [|congruence].
  apply (NoDup_lookup (ids todos) i j (Todo.id todo) Hnd); unfold ids;
    rewrite list_lookup_fmap; [by rewrite Hi|by rewrite Hj, Hid].
Qed.

(** X16.  From the screen a text is changed only in edit mode: when the
    ids of the collection are pairwise distinct, any call made by a
    rendered item leaves every Todo that is left with the text it had
    unless that Todo was being edited.  Both pages. *)
Theorem issued_operations_keep_text (todos : list Todo.t)
    (draft : JS.string) (todo : Todo.t) (e : Element) (op : Op) :
  NoDup (ids todos) → todo ∈ todos → e ∈ TodoItem todo → issues e op →
  (∀ after, after ∈ Basic.todos (Basic.step (Basic.mkState todos draft) op) →
     ∃ before, before ∈ todos ∧ Todo.id after = Todo.id before ∧
       (Todo.text after = Todo.text before ∨ Todo.isEditing before = true)) ∧
  (∀ after,
     after ∈ Optimized.todos
               (Optimized.step (Optimized.mkState todos draft) op) →
     ∃ before, before ∈ todos ∧ Todo.id after = Todo.id before ∧
       (Todo.text after = Todo.text before ∨ Todo.isEditing before = true)).
Proof.
  intros Hnd Hin He Hop.
  destruct (TodoItem_issues todo e op He Hop)
    as [->|[[Hediting [v ->]]|[[_ ->]|[[_ ->]| ->]]]]; simpl;
    split; intros after Hafter;
    try (apply list_elem_of_filter in Hafter as [_ Hafter];
         exists after; by auto);
    apply list_elem_of_fmap in Hafter as (before & -> & Hbefore);
    exists before; (split; [done|]);
    case_decide; simpl; try (by auto).
  all: split; [done|right].
  all: by rewrite (NoDup_ids_same todos before todo Hnd Hbefore Hin).
Qed.

Lemma issued_operations_keep_text_witness :
  let todo := Todo.mk 1 (JS.lit "A") false true in
  let todos := [todo; Todo.mk 2 (JS.lit "B") false false] in
  ∃ before, before ∈ todos ∧
    Todo.id (Todo.mk 1 (JS.lit "Ab") false true) = Todo.id before ∧
    (Todo.text (Todo.mk 1 (JS.lit "Ab") false true) = Todo.text before ∨
     Todo.isEditing before = true).
Proof.
  intros todo todos.
  apply (proj1 (issued_operations_keep_text todos [] todo
                  (Input (JS.lit "A") (λ value, UpdateTodoText 1 value))
                  (UpdateTodoText 1 (JS.lit "Ab"))
                  ltac:(apply (bool_decide_unpack _); vm_compute; exact I)
                  ltac:(by left)
                  ltac:(right; by left)
                  ltac:(by exists (JS.lit "Ab")))).
  by left.
Defined.

(** ** Texts *)

(** A property of texts that every text entering the collection through
    [op] has is kept by [op]. *)
Section Texts.

Variable P : JS.string → Prop.

Local Abbreviation texts_ok :=
  (Forall (λ todo : Todo.t, P (Todo.text todo))).

Lemma per_item_texts (g : Todo.t → Todo.t) (id : Z) (todos : list Todo.t) :
  (∀ todo, P (Todo.text todo) → P (Todo.text (g todo))) →
  texts_ok todos → texts_ok (per_item g id todos).
Proof.
  intros Hg Htodos. unfold per_item. apply Forall_fmap.
  eapply Forall_impl; [exact Htodos|]. intros todo Htodo. simpl.
  case_decide; auto.
Qed.

Lemma removeTodo_texts (id : Z) (todos : list Todo.t) :
  texts_ok todos → texts_ok (Basic.removeTodo id todos).
Proof.
  unfold Basic.removeTodo. rewrite !Forall_forall.
  intros Htodos todo [_ Hin]%list_elem_of_filter. by apply Htodos.
Qed.

Lemma Basic_step_texts (st : Basic.State) (op : Op) :
  match op with
  | AddTodo _ text => JS.trim text ≠ [] → P text
  | UpdateTodoText _ newText => P newText
  | _ => True
  end →
  texts_ok (Basic.todos st) → texts_ok (Basic.todos (Basic.step st op)).
Proof.
  intros Hop Htodos. destruct op as [now text|id|id newText|id|id|id]; simpl;
    try (by apply (per_item_texts _ id)); [|by apply removeTodo_texts].
  unfold Basic.addTodo. case_decide; simpl; [|done].
  apply Forall_app. split; [done|]. constructor; [|constructor]. by apply Hop.
Qed.

Lemma Optimized_step_texts (st : Optimized.State) (op : Op) :
  match op with
  | AddTodo _ text => JS.trim text ≠ [] → P (JS.trim text)
  | UpdateTodoText _ newText => P newText
  | _ => True
  end →
  texts_ok (Optimized.todos st) →
  texts_ok (Optimized.todos (Optimized.step st op)).
Proof.
  intros Hop Htodos. destruct op as [now text|id|id newText|id|id|id]; simpl;
    try (by apply (per_item_texts _ id)); [|by apply removeTodo_texts].
  unfold Optimized.handleAdd, Optimized.addTodo. case_decide; simpl; [|done].
  apply Forall_app. split; [done|]. constructor; [|constructor]. by apply Hop.
Qed.

End Texts.

(** X17.  Adding never stores a blank text, and nothing but
    [updateTodoText] can bring one in: along any sequence of operations
    without a text edit, if no Todo had a text that is empty once trimmed
    then none has afterwards; in the memoized page, moreover, texts that
    were trimmed stay trimmed. *)
Theorem texts_stay_non_blank (ops : list Op) :
  Forall no_text_edit ops →
  (∀ st,
     Forall (λ todo, JS.trim (Todo.text todo) ≠ []) (Basic.todos st) →
     Forall (λ todo, JS.trim (Todo.text todo) ≠ [])
       (Basic.todos (Basic.run ops st))) ∧
  (∀ st,
     Forall (λ todo, JS.trim (Todo.text todo) = Todo.text todo ∧
                     Todo.text todo ≠ []) (Optimized.todos st) →
     Forall (λ todo, JS.trim (Todo.text todo) = Todo.text todo ∧
                     Todo.text todo ≠ [])
       (Optimized.todos (Optimized.run ops st))).
Proof.
  induction 1 as [|op ops Hop Hops [IHb IHo]]; [done|].
  split; intros st Hst; simpl.
  - apply IHb.
    apply (Basic_step_texts (λ text, JS.trim text ≠ [])); [|done].
    by destruct op.
  - apply IHo.
    apply (Optimized_step_texts
             (λ text, JS.trim text = text ∧ text ≠ [])); [|done].
    destruct op; try done. intros Htext. by rewrite trim_idemp.
Qed.

Lemma texts_stay_non_blank_witness :
  let ops := [AddTodo 1 (JS.lit " A "); AddTodo 2 (JS.lit "  ");
              ToggleTodo 1; StartEditing 1; SaveTodoEdit 1] in
  Forall (λ todo, JS.trim (Todo.text todo) ≠ [])
    (Basic.todos (Basic.run ops Basic.init)).
Proof.
  intros ops. apply (texts_stay_non_blank ops).
  - repeat constructor.
  - constructor.
Defined.
